(** * The chat widget of qdrant-chatbot: the [ChatInterface] component

    A shallow embedding of [ChatInterface] (components/ui/ChatInterface.tsx):
    its four pieces of React state, the [onChange] and [onSubmit] handlers,
    and the asynchronous body of [handleSubmit], cut at its two [await]s.

    Conventions.
    - A JavaScript string is its sequence of UTF-16 code units.
    - [Date.now()] is an input of the environment: every event that reads
      the clock carries the reading.
    - [fetch] and [JSON.stringify] are kept symbolic: a request is a record
      of what was passed to [fetch], and what the network answers is an
      input of the environment.
    - One event (a DOM event, or the resumption of the suspended handler
      after an [await]) runs to its next suspension point without
      interleaving, and React has re-rendered before the next event, so a
      handler reads the state left by the previous event. *)

From Stdlib Require Import ZArith NArith Ascii String DecimalString DecimalZ.
From stdpp Require Import base tactics option list.

(** ** The fragment of JavaScript the component relies on *)
Module JS.
Local Open Scope N_scope.

(** Strings: sequences of UTF-16 code units. *)
Abbreviation jsstring := (list N).

(** An ASCII literal of the source text. *)
Definition lit (s : string) : jsstring :=
  N_of_ascii <$> list_ascii_of_string s.

(** ECMAScript [WhiteSpace]: TAB, VT, FF, SP, NBSP, ZWNBSP and the
    Unicode space separators (category Zs). *)
Definition is_WhiteSpace (c : N) : bool :=
  (c =? 0x9) || (c =? 0xB) || (c =? 0xC) || (c =? 0x20) || (c =? 0xA0)
  || (c =? 0x1680) || ((0x2000 <=? c) && (c <=? 0x200A))
  || (c =? 0x202F) || (c =? 0x205F) || (c =? 0x3000) || (c =? 0xFEFF).

(** ECMAScript [LineTerminator]: LF, CR, LS, PS. *)
Definition is_LineTerminator (c : N) : bool :=
  (c =? 0xA) || (c =? 0xD) || (c =? 0x2028) || (c =? 0x2029).

(** What [String.prototype.trim] strips at both ends. *)
Definition is_trimmed (c : N) : bool :=
  is_WhiteSpace c || is_LineTerminator c.

Fixpoint trimStart (s : jsstring) : jsstring :=
  match s with
  | [] => []
  | c :: s' => if is_trimmed c then trimStart s' else s
  end.

Definition trimEnd (s : jsstring) : jsstring :=
  rev (trimStart (rev s)).

(** [s.trim()] *)
Definition trim (s : jsstring) : jsstring := trimEnd (trimStart s).

(** [ToBoolean] of a string: the empty string is the only falsy one. *)
Definition String_truthy (s : jsstring) : bool :=
  match s with [] => false | _ :: _ => true end.

(** [n.toString()] for an integral number of milliseconds: the decimal
    numeral, with a leading minus sign below zero. (Clock readings and
    their successors are integers well inside the range where doubles are
    exact and [toString] uses no exponent.) *)
Definition Number_prototype_toString (z : Z) : jsstring :=
  lit (NilEmpty.string_of_int (Z.to_int z)).

(** What differs between engines, or is not modelled in detail:
    the doubles a JSON text can denote, and the messages of the
    [TypeError]s raised by reading a property of [null] and by
    converting to a string an object that has no callable [toString]. *)
Class Engine := {
  number : Type;
  (** [ToBoolean] on a number: false exactly for [+0] and [-0]. *)
  Number_truthy : number -> bool;
  (** [ToString] on a number. *)
  Number_toString : number -> jsstring;
  (** [null_read_message k]: message of the [TypeError] thrown by
      [null.k]. *)
  null_read_message : jsstring -> jsstring;
  (** Message of the [TypeError] thrown when an object cannot be
      converted to a primitive value. *)
  to_primitive_message : jsstring;
}.

(** An engine to run examples on: numbers restricted to the integers,
    where [ToString] is the decimal numeral, and the wording V8 uses for
    the [TypeError]s. *)
Definition example_engine : Engine :=
  {| number := Z;
     Number_truthy := fun z => negb (z =? 0)%Z;
     Number_toString := Number_prototype_toString;
     null_read_message := fun k =>
       lit "Cannot read properties of null (reading '" ++ k ++ lit "')";
     to_primitive_message :=
       lit "Cannot convert object to primitive value" |}.

Section Values.
Context {E : Engine}.

(** The values [JSON.parse] (hence [response.json()]) produces. An
    object keeps its members in text order. *)
Local Unset Elimination Schemes.
Inductive json : Type :=
| JNull
| JBool (b : bool)
| JNum (n : number)
| JStr (s : jsstring)
| JArr (xs : list json)
| JObj (members : list (jsstring * json)).
Local Set Elimination Schemes.

(** A JavaScript value as far as the component meets one:
    [undefined], or a JSON value. *)
Inductive jsval : Type :=
| JUndefined
| JVal (v : json).

(** Outcome of an expression that may throw, or of an awaited promise
    that may reject. Every exception the handler can catch is an
    [Error] object; it is represented by its [message]. *)
Inductive result (A : Type) : Type :=
| Ok (a : A)
| Throw (message : jsstring).
Global Arguments Ok {A} a.
Global Arguments Throw {A} message.

Definition result_bind {A B} (f : A -> result B) (r : result A) : result B :=
  match r with
  | Ok a => f a
  | Throw m => Throw m
  end.

(** The member of an object named [k]: with a repeated name the last
    member wins, as in [JSON.parse]. *)
Fixpoint own_property (k : jsstring) (members : list (jsstring * json))
  : option json :=
  match members with
  | [] => None
  | (k', v) :: rest =>
      match own_property k rest with
      | Some v' => Some v'
      | None => if decide (k' = k) then Some v else None
      end
  end.

(** [o.k] for a parsed JSON value [o] and a name [k] that no prototype
    defines (the component reads [detail] and [response] only):
    reading from [null] throws, a missing member and any member of a
    primitive or an array is [undefined]. *)
Definition get (o : json) (k : jsstring) : result jsval :=
  match o with
  | JNull => Throw (null_read_message k)
  | JObj members =>
      Ok (match own_property k members with
          | Some v => JVal v
          | None => JUndefined
          end)
  | _ => Ok JUndefined
  end.

(** [ToBoolean] *)
Definition truthy (v : jsval) : bool :=
  match v with
  | JUndefined => false
  | JVal JNull => false
  | JVal (JBool b) => b
  | JVal (JNum n) => Number_truthy n
  | JVal (JStr s) => String_truthy s
  | JVal (JArr _) => true
  | JVal (JObj _) => true
  end.

(** [a || b] *)
Definition logical_or (a b : jsval) : jsval := if truthy a then a else b.

(** [xs.join(sep)] on strings. *)
Fixpoint join (sep : jsstring) (xs : list jsstring) : jsstring :=
  match xs with
  | [] => []
  | [x] => x
  | x :: rest => x ++ sep ++ join sep rest
  end.

(** [ToString] of a JSON value. An array is its elements joined by
    commas, converted from left to right, [null] elements giving the
    empty string. An object is ["[object Object]"], by
    [Object.prototype.toString], unless it has a member of its own named
    [toString]: no JSON value is callable, [valueOf] does not return a
    primitive either, and the conversion throws. *)
Fixpoint ToString_json (v : json) : result jsstring :=
  match v with
  | JNull => Ok (lit "null")
  | JBool true => Ok (lit "true")
  | JBool false => Ok (lit "false")
  | JNum n => Ok (Number_toString n)
  | JStr s => Ok s
  | JArr xs =>
      result_bind (fun parts => Ok (join (lit ",") parts))
        ((fix elements (xs : list json) : result (list jsstring) :=
            match xs with
            | [] => Ok []
            | x :: xs' =>
                result_bind
                  (fun part =>
                     result_bind (fun parts => Ok (part :: parts))
                       (elements xs'))
                  match x with
                  | JNull => Ok []
                  | _ => ToString_json x
                  end
            end) xs)
  | JObj members =>
      match own_property (lit "toString") members with
      | Some _ => Throw to_primitive_message
      | None => Ok (lit "[object Object]")
      end
  end.

Definition ToString (v : jsval) : result jsstring :=
  match v with
  | JUndefined => Ok (lit "undefined")
  | JVal j => ToString_json j
  end.

(** The [message] of [new Error(v)]: absent argument aside, the
    argument converted to a string, which may throw. *)
Definition new_Error (v : jsval) : result jsstring :=
  match v with
  | JUndefined => Ok []
  | _ => ToString v
  end.

End Values.

Global Instance result_mbind : MBind result :=
  fun A B f r => result_bind f r.

End JS.

(** ** The component *)
Module Chat.
Import JS.

Section Component.
Context {E : Engine}.

Inductive Role : Type := user | bot.

(** [interface Message]. The annotation of [content] is [string], but
    the success path stores [data.response], of type [any], unchecked:
    at run time it is whatever value the reply holds there. *)
Record Message : Type := {
  id : jsstring;
  role : Role;
  content : jsval;
}.

(** The four [useState] cells of [ChatInterface]. *)
Record Store : Type := {
  messages : list Message;
  input : jsstring;
  isLoading : bool;
  error : option jsstring;
}.

(** [setMessages] is always called with an updater function. *)
Definition setMessages (f : list Message -> list Message) (s : Store) : Store :=
  {| messages := f (messages s); input := input s;
     isLoading := isLoading s; error := error s |}.

Definition setInput (v : jsstring) (s : Store) : Store :=
  {| messages := messages s; input := v;
     isLoading := isLoading s; error := error s |}.

Definition setIsLoading (b : bool) (s : Store) : Store :=
  {| messages := messages s; input := input s;
     isLoading := b; error := error s |}.

Definition setError (e : option jsstring) (s : Store) : Store :=
  {| messages := messages s; input := input s;
     isLoading := isLoading s; error := e |}.

(** The text [JSON.stringify] returns for a value, kept symbolic. *)
Inductive Body : Type := JSON_stringify (v : json).

(** The arguments of one call of [fetch]. *)
Record Request : Type := {
  url : jsstring;
  method : jsstring;
  headers : list (jsstring * jsstring);
  body : Body;
}.

(** An invocation of [handleSubmit] suspended at an [await]: on
    [fetch(...)], or on [response.json()] of a response whose [ok]
    flag is known. *)
Inductive Task : Type :=
| AwaitFetch
| AwaitJson (ok : bool).

(** The component and its surroundings: the state cells, the suspended
    invocations of [handleSubmit], and every request passed to [fetch]
    so far. *)
Record World : Type := {
  store : Store;
  tasks : list Task;
  sent : list Request;
}.

Definition init : World :=
  {| store := {| messages := []; input := []; isLoading := false;
                 error := None |};
     tasks := []; sent := [] |}.

(** The call of [fetch] in [handleSubmit], for the draft [query]. *)
Definition fetch_call (query : jsstring) : Request :=
  {| url := lit "http://127.0.0.1:8000/chat";
     method := lit "POST";
     headers := [(lit "Content-Type", lit "application/json")];
     body := JSON_stringify (JObj [(lit "query", JStr query)]) |}.

(** [handleSubmit] from its entry to the first [await], at clock
    reading [now]. ([e.preventDefault()] acts on the DOM event only.)
    [input] and [isLoading] are the values of the render the handler
    belongs to; the state updates do not change what [input] denotes
    in the call of [fetch] below them. *)
Definition handleSubmit (now : Z) (w : World) : World :=
  let s := store w in
  if negb (String_truthy (trim (input s))) || isLoading s then w
  else
    let userMessage :=
      {| id := Number_prototype_toString now;
         role := user;
         content := JVal (JStr (input s)) |} in
    let s1 := setMessages (fun prev => prev ++ [userMessage]) s in
    let s2 := setInput [] s1 in
    let s3 := setIsLoading true s2 in
    let s4 := setError None s3 in
    {| store := s4;
       tasks := tasks w ++ [AwaitFetch];
       sent := sent w ++ [fetch_call (input s)] |}.

(** The [try] block from the point where [response.json()] has
    resolved with [data], for a response with flag [ok]: what it
    throws, or the message it appends. *)
Definition try_after_json (ok : bool) (data : json) (now : Z)
  : result Message :=
  if negb ok then
    detail ← get data (lit "detail");
    message ← new_Error
                (logical_or detail
                   (JVal (JStr (lit "An unknown error occurred."))));
    Throw message
  else
    response ← get data (lit "response");
    Ok {| id := Number_prototype_toString (now + 1);
          role := bot;
          content := response |}.

(** The end of [handleSubmit]: the last statement of the [try] block
    or the [catch] block, then the [finally] block. [now] is the clock
    reading the appended message takes its id from. *)
Definition settle (r : result Message) (now : Z) (s : Store) : Store :=
  let s' :=
    match r with
    | Ok botMessage => setMessages (fun prev => prev ++ [botMessage]) s
    | Throw message =>
        let s1 := setError (Some message) s in
        let errorMessage :=
          {| id := Number_prototype_toString (now + 1);
             role := bot;
             content := JVal (JStr (lit "Error: " ++ message)) |} in
        setMessages (fun prev => prev ++ [errorMessage]) s1
    end in
  setIsLoading false s'.

(** The suspended invocation [i] runs to its end. *)
Definition finish (i : nat) (r : result Message) (now : Z) (w : World)
  : World :=
  {| store := settle r now (store w);
     tasks := delete i (tasks w);
     sent := sent w |}.

(** What can happen to the component. *)
Inductive Event : Type :=
| Change (value : jsstring)
    (** the user edits the input: [onChange] *)
| Submit (now : Z)
    (** the form is submitted: [onSubmit] *)
| FetchResolved (i : nat) (ok : bool)
    (** the [fetch] of invocation [i] resolves with a response *)
| FetchRejected (i : nat) (message : jsstring) (now : Z)
    (** the [fetch] of invocation [i] rejects *)
| JsonResolved (i : nat) (data : json) (now : Z)
    (** [response.json()] of invocation [i] resolves *)
| JsonRejected (i : nat) (message : jsstring) (now : Z)
    (** [response.json()] of invocation [i] rejects *).

(** One event. [None]: the event cannot occur in this world (the
    input is rendered with [disabled={isLoading}], and a promise
    settles only for an invocation that awaits it). *)
Definition step (w : World) (e : Event) : option World :=
  match e with
  | Change value =>
      if isLoading (store w) then None
      else Some {| store := setInput value (store w);
                   tasks := tasks w; sent := sent w |}
  | Submit now => Some (handleSubmit now w)
  | FetchResolved i ok =>
      match tasks w !! i with
      | Some AwaitFetch =>
          Some {| store := store w;
                  tasks := <[i := AwaitJson ok]> (tasks w);
                  sent := sent w |}
      | _ => None
      end
  | FetchRejected i message now =>
      match tasks w !! i with
      | Some AwaitFetch => Some (finish i (Throw message) now w)
      | _ => None
      end
  | JsonResolved i data now =>
      match tasks w !! i with
      | Some (AwaitJson ok) =>
          Some (finish i (try_after_json ok data now) now w)
      | _ => None
      end
  | JsonRejected i message now =>
      match tasks w !! i with
      | Some (AwaitJson _) => Some (finish i (Throw message) now w)
      | _ => None
      end
  end.

(** A sequence of events. *)
Fixpoint run (w : World) (es : list Event) : option World :=
  match es with
  | [] => Some w
  | e :: es' =>
      match step w e with
      | Some w' => run w' es'
      | None => None
      end
  end.

(** The worlds the component can be in. *)
Inductive reachable : World -> Prop :=
| reachable_init : reachable init
| reachable_step w e w' :
    reachable w -> step w e = Some w' -> reachable w'.

(** Two worlds to run examples from: the initial one after [draft] has
    been typed, and that one after the form has been submitted at clock
    reading [now]. *)
Definition typed (draft : jsstring) : World :=
  {| store := setInput draft (store init);
     tasks := tasks init; sent := sent init |}.

Definition asked (draft : jsstring) (now : Z) : World :=
  handleSubmit now (typed draft).

(** The events at which an invocation of [handleSubmit] runs its [catch]
    or the end of its [try], and then its [finally]. *)
Definition settles (e : Event) : Prop :=
  match e with
  | FetchRejected _ _ _ | JsonResolved _ _ _ | JsonRejected _ _ _ => True
  | Change _ | Submit _ | FetchResolved _ _ => False
  end.

(** What every reachable world satisfies (see [reachable_consistent]):
    while the loading flag is set the draft is empty and exactly one
    invocation is suspended; otherwise none is. *)
Definition consistent (w : World) : Prop :=
  if isLoading (store w)
  then input (store w) = [] /\ exists t, tasks w = [t]
  else tasks w = [].

(** The integer whose decimal numeral is the id of the message an event
    appends in world [w], when it appends one: the clock reading of a
    submission the guard lets through, the reading plus one at the end of
    an invocation. A submission the guard refuses reads no clock. *)
Definition id_number (w : World) (e : Event) : option Z :=
  match e with
  | Submit now =>
      if negb (String_truthy (trim (input (store w))))
         || isLoading (store w)
      then None
      else Some now
  | FetchRejected _ _ now | JsonResolved _ _ now | JsonRejected _ _ now =>
      Some (now + 1)%Z
  | Change _ | FetchResolved _ _ => None
  end.

(** Along the events [es] from world [w], every message appended takes
    its id from an integer that is at least [free], and greater than the
    integer of every message appended before it. *)
Fixpoint spaced (free : Z) (w : World) (es : list Event) : Prop :=
  match es with
  | [] => True
  | e :: es' =>
      match step w e with
      | None => True
      | Some w' =>
          match id_number w e with
          | Some z => (free <= z)%Z /\ spaced (z + 1) w' es'
          | None => spaced free w' es'
          end
      end
  end.

(** The events that are not a submission of the form. *)
Definition not_submit (e : Event) : Prop :=
  match e with
  | Submit _ => False
  | _ => True
  end.

(** *** The ways one request can end *)

(** What becomes of the request of one invocation: [fetch] rejects; a
    response arrives whose body is not JSON; a response arrives and its
    body parses. *)
Inductive Outcome : Type :=
| Rejected (message : jsstring)
| Unparsable (ok : bool) (message : jsstring)
| Answered (ok : bool) (data : json).

(** The events by which invocation [i] meets an outcome, the handler
    reading the clock at [now] when it ends. *)
Definition outcome_events (i : nat) (o : Outcome) (now : Z) : list Event :=
  match o with
  | Rejected message => [FetchRejected i message now]
  | Unparsable ok message =>
      [FetchResolved i ok; JsonRejected i message now]
  | Answered ok data => [FetchResolved i ok; JsonResolved i data now]
  end.

(** The request [handleSubmit] sent for a message of the transcript: one
    for a message of role [user], carrying its text. *)
Definition request_for (m : Message) : option Request :=
  match role m, content m with
  | user, JVal (JStr query) => Some (fetch_call query)
  | _, _ => None
  end.

(** *** What the component renders *)

(** The two avatars, by their fallback text. *)
Inductive Avatar : Type := CB | U.

(** One entry of the scrollable log, as far as it depends on the state:
    the React key, the alignment class of its row, the avatar before the
    bubble, the background classes of the bubble, whether its text
    pulses, the text, and the avatar after the bubble. *)
Record Bubble : Type := {
  key : option jsstring;
  justify : jsstring;
  leading : option Avatar;
  background : jsstring;
  pulse : bool;
  children : jsval;
  trailing : option Avatar;
}.

(** The body of [messages.map((message) => ...)]. *)
Definition message_row (message : Message) : Bubble :=
  {| key := Some (id message);
     justify :=
       match role message with
       | user => lit "justify-end"
       | bot => lit "justify-start"
       end;
     leading :=
       match role message with
       | bot => Some CB
       | user => None
       end;
     background :=
       match role message with
       | user => lit "bg-primary text-primary-foreground"
       | bot => lit "bg-muted"
       end;
     pulse := false;
     children := content message;
     trailing :=
       match role message with
       | user => Some U
       | bot => None
       end |}.

(** The entry rendered under [isLoading &&]. *)
Definition thinking_row : Bubble :=
  {| key := None;
     justify := lit "justify-start";
     leading := Some CB;
     background := lit "bg-muted";
     pulse := true;
     children := JVal (JStr (lit "Bot is thinking..."));
     trailing := None |}.

(** The state-dependent part of what [ChatInterface] returns: the
    entries of the log, and the [value] and [disabled] attributes of the
    input and of the submit button. *)
Record View : Type := {
  log : list Bubble;
  value : jsstring;
  input_disabled : bool;
  submit_disabled : bool;
}.

Definition ChatInterface (s : Store) : View :=
  {| log :=
       map message_row (messages s) ++
         (if isLoading s then [thinking_row] else []);
     value := input s;
     input_disabled := isLoading s;
     submit_disabled := isLoading s |}.

(** Whether React accepts a value as a child of the [<p>] of a row:
    a string or a number is text, a boolean, [null] and [undefined]
    render nothing, an array renders its elements in turn; a plain
    object makes the render throw. *)
Fixpoint React_child_json (v : json) : bool :=
  match v with
  | JObj _ => false
  | JArr xs => forallb React_child_json xs
  | JNull | JBool _ | JNum _ | JStr _ => true
  end.

Definition React_child (v : jsval) : bool :=
  match v with
  | JUndefined => true
  | JVal j => React_child_json j
  end.

(** The outcome of a request puts nothing in the transcript that the
    render throws on: the only content not made by the handler itself
    is the [response] of a body with success status. *)
Definition renders (o : Outcome) : Prop :=
  match o with
  | Answered true data =>
      forall v, get data (lit "response") = Ok v -> React_child v = true
  | Answered false _ | Unparsable _ _ | Rejected _ => True
  end.

(** The dependency array of the effect that scrolls the log to its end.
    React runs the effect again after a render in which a dependency has
    changed. The [messages] array is compared by identity: it is replaced
    by every call of [setMessages], each of which appends, and by nothing
    else, so it has changed exactly when the list has. *)
Definition scroll_deps (s : Store) : list Message * bool :=
  (messages s, isLoading s).

End Component.

End Chat.

(** ** Properties *)

Import JS Chat.

(** *** Trimming *)
Section TrimFacts.

Lemma trimStart_nil (s : jsstring) :
  trimStart s = [] <-> forallb is_trimmed s = true.
Proof.
  induction s as [|c s IH]; simpl; [tauto|].
  destruct (is_trimmed c); simpl; [apply IH|].
  split; intros H; discriminate H.
Qed.

Lemma trimStart_cons (s : jsstring) (c : N) (r : jsstring) :
  trimStart s = c :: r -> is_trimmed c = false.
Proof.
  induction s as [|a s IH]; simpl; [discriminate|].
  destruct (is_trimmed a) eqn:Ha; [exact IH|].
  intros [= <- _]. exact Ha.
Qed.

Lemma forallb_rev {A} (f : A -> bool) (l : list A) :
  forallb f (rev l) = forallb f l.
Proof.
  induction l as [|a l IH]; simpl; [reflexivity|].
  rewrite forallb_app, IH. simpl. rewrite andb_true_r. apply andb_comm.
Qed.

(** [s.trim()] is the empty string exactly when [s] is made of white
    space and line terminators only (the empty [s] included). *)
Lemma trim_nil (s : jsstring) :
  trim s = [] <-> forallb is_trimmed s = true.
Proof.
  unfold trim, trimEnd. split.
  - intros H. apply (f_equal (@rev N)) in H. rewrite rev_involutive in H.
    simpl in H. apply trimStart_nil in H. rewrite forallb_rev in H.
    destruct (trimStart s) as [|c r] eqn:Hs; [by apply trimStart_nil|].
    apply trimStart_cons in Hs. simpl in H. rewrite Hs in H. discriminate H.
  - intros H. apply trimStart_nil in H. by rewrite H.
Qed.

Lemma String_truthy_trim (s : jsstring) :
  String_truthy (trim s) = false <-> forallb is_trimmed s = true.
Proof.
  rewrite <- trim_nil. destruct (trim s); simpl; split; congruence.
Qed.

End TrimFacts.

(** *** Numerals *)
Section NumeralFacts.

Lemma lit_inj (s1 s2 : string) : lit s1 = lit s2 -> s1 = s2.
Proof.
  unfold lit. intros H.
  rewrite <- (string_of_list_ascii_of_string s1).
  rewrite <- (string_of_list_ascii_of_string s2). f_equal.
  revert H. generalize (list_ascii_of_string s1) (list_ascii_of_string s2).
  induction l as [|a l IH]; intros [|b l']; simpl; try done.
  intros [= Hab Hl]. f_equal; [|by apply IH].
  rewrite <- (ascii_N_embedding a), <- (ascii_N_embedding b).
  by rewrite Hab.
Qed.

(** Distinct integers have distinct numerals. *)
Lemma Number_prototype_toString_inj (a b : Z) :
  Number_prototype_toString a = Number_prototype_toString b -> a = b.
Proof.
  unfold Number_prototype_toString. intros H. apply lit_inj in H.
  apply (f_equal NilEmpty.int_of_string) in H.
  rewrite !NilEmpty.isi in H. injection H as H.
  rewrite <- (DecimalZ.of_to a), <- (DecimalZ.of_to b). by rewrite H.
Qed.

End NumeralFacts.

(** *** The handler and the event loop *)
Section ChatFacts.
Context {E : Engine}.

Implicit Types (w : World) (e : Event) (s : Store) (now : Z).

(** A step that resumes invocation [i]: the invocation is there,
    suspended where the event expects it, and the step's result is
    known. *)
Ltac awaited Hstep Hi :=
  match type of Hstep with
  | context [tasks ?w !! ?i] =>
      destruct (tasks w !! i) as [[|?]|] eqn:Hi; try done;
      injection Hstep as <-
  end.

(** The guard in the first line of [handleSubmit]. *)
Lemma handleSubmit_guarded w now :
  trim (input (store w)) = [] \/ isLoading (store w) = true ->
  handleSubmit now w = w.
Proof.
  intros H. unfold handleSubmit.
  destruct H as [-> | ->]; [reflexivity|].
  by rewrite orb_true_r.
Qed.

Lemma handleSubmit_passes w now :
  trim (input (store w)) <> [] -> isLoading (store w) = false ->
  handleSubmit now w =
    {| store :=
         {| messages :=
              messages (store w) ++
                [{| id := Number_prototype_toString now; role := user;
                    content := JVal (JStr (input (store w))) |}];
            input := []; isLoading := true; error := None |};
       tasks := tasks w ++ [AwaitFetch];
       sent := sent w ++ [fetch_call (input (store w))] |}.
Proof.
  intros Hdraft Hidle. unfold handleSubmit. rewrite Hidle.
  destruct (trim (input (store w))); [done|reflexivity].
Qed.

(** Whatever [handleSubmit] ends with, it appends one message of role
    [bot] and clears the loading flag. *)
Lemma settle_appends_bot (r : result Message) now s :
  (forall m, r = Ok m -> role m = bot) ->
  exists m, role m = bot /\
    messages (settle r now s) = messages s ++ [m] /\
    isLoading (settle r now s) = false /\
    input (settle r now s) = input s.
Proof.
  intros Hr. destruct r as [m|msg]; simpl.
  - exists m. auto.
  - eexists. split; [|split; [reflexivity|split; reflexivity]]. reflexivity.
Qed.

Lemma try_after_json_bot ok data now m :
  try_after_json ok data now = Ok m -> role m = bot.
Proof.
  unfold try_after_json. destruct ok; simpl.
  - destruct (get data (lit "response")); simpl; [|discriminate].
    by intros [= <-].
  - destruct (get data (lit "detail")); simpl; [|discriminate].
    destruct (new_Error _); discriminate.
Qed.

Lemma try_after_json_id (ok : bool) (data : json) now (m : Message) :
  try_after_json ok data now = Ok m ->
  id m = Number_prototype_toString (now + 1).
Proof.
  unfold try_after_json. destruct ok; simpl.
  - destruct (get data (lit "response")); simpl; [|discriminate].
    by intros [= <-].
  - destruct (get data (lit "detail")); simpl; [|discriminate].
    destruct (new_Error _); discriminate.
Qed.

Lemma consistent_idle w :
  consistent w -> isLoading (store w) = false -> tasks w = [].
Proof. unfold consistent. intros H Hl. by rewrite Hl in H. Qed.

Lemma consistent_busy w :
  consistent w -> isLoading (store w) = true ->
  input (store w) = [] /\ exists t, tasks w = [t].
Proof. unfold consistent. intros H Hl. by rewrite Hl in H. Qed.

(** A suspended invocation exists only while the loading flag is set,
    and then it is the only one. *)
Lemma consistent_task w i (t : Task) :
  consistent w -> tasks w !! i = Some t ->
  isLoading (store w) = true /\ input (store w) = [] /\
  i = 0 /\ tasks w = [t].
Proof.
  unfold consistent. intros H Hi.
  destruct (isLoading (store w)).
  - destruct H as [Hin [t' Ht]]. rewrite Ht in Hi.
    destruct i as [|i]; simpl in Hi; [|by destruct i].
    injection Hi as ->. done.
  - rewrite H in Hi. done.
Qed.

Lemma finish_consistent w i (r : result Message) now (t : Task) :
  consistent w -> tasks w !! i = Some t -> consistent (finish i r now w).
Proof.
  intros H Hi. destruct (consistent_task _ _ _ H Hi) as (_ & _ & -> & Ht).
  unfold consistent, finish. simpl. by rewrite Ht.
Qed.

Lemma step_consistent w e w' :
  consistent w -> step w e = Some w' -> consistent w'.
Proof.
  intros H Hstep. destruct e as [v|now|i ok|i msg now|i data now|i msg now];
    simpl in Hstep.
  - destruct (isLoading (store w)) eqn:Hl; [done|].
    injection Hstep as <-. unfold consistent in *. simpl.
    by rewrite Hl in *.
  - injection Hstep as <-.
    destruct (isLoading (store w)) eqn:Hl.
    { rewrite handleSubmit_guarded; auto. }
    destruct (trim (input (store w))) eqn:Ht.
    { rewrite handleSubmit_guarded; auto. }
    rewrite handleSubmit_passes; [|by rewrite Ht|done].
    unfold consistent. simpl. rewrite (consistent_idle w H Hl). eauto.
  - awaited Hstep Hi.
    destruct (consistent_task _ _ _ H Hi) as (Hl & Hin & -> & Ht).
    unfold consistent. simpl. rewrite Hl, Ht. simpl. eauto.
  - awaited Hstep Hi. eapply finish_consistent; eauto.
  - awaited Hstep Hi. eapply finish_consistent; eauto.
  - awaited Hstep Hi. eapply finish_consistent; eauto.
Qed.

Lemma reachable_consistent w : reachable w -> consistent w.
Proof.
  induction 1 as [|w e w' _ IH Hstep]; [reflexivity|].
  eapply step_consistent; eauto.
Qed.

(** The transcript only grows, at its end, by at most one message a
    step. *)
Lemma step_messages w e w' :
  step w e = Some w' ->
  messages (store w') = messages (store w) \/
  exists m, messages (store w') = messages (store w) ++ [m].
Proof.
  intros Hstep. destruct e as [v|now|i ok|i msg now|i data now|i msg now];
    simpl in Hstep.
  - destruct (isLoading (store w)); [done|]. injection Hstep as <-. by left.
  - injection Hstep as <-. unfold handleSubmit.
    destruct (_ || _); [by left|]. right. simpl. eauto.
  - awaited Hstep Hi.
    by left.
  - awaited Hstep Hi.
    right. simpl. eauto.
  - awaited Hstep Hi.
    right. simpl. destruct (try_after_json _ _ _); simpl; eauto.
  - awaited Hstep Hi.
    right. simpl. eauto.
Qed.

Lemma run_messages w (es : list Event) w' :
  run w es = Some w' ->
  exists later, messages (store w') = messages (store w) ++ later.
Proof.
  revert w. induction es as [|e es IH]; intros w Hrun; simpl in Hrun.
  - injection Hrun as <-. exists []. by rewrite app_nil_r.
  - destruct (step w e) as [w1|] eqn:Hstep; [|done].
    destruct (IH _ Hrun) as [later Hlater]. rewrite Hlater.
    destruct (step_messages _ _ _ Hstep) as [-> | [m ->]]; [eauto|].
    exists (m :: later). by rewrite <- app_assoc.
Qed.

Lemma typed_reachable (draft : jsstring) : reachable (typed draft).
Proof.
  apply (reachable_step init (Change draft)); [apply reachable_init|done].
Qed.

Lemma asked_reachable (draft : jsstring) now : reachable (asked draft now).
Proof.
  apply (reachable_step (typed draft) (Submit now));
    [apply typed_reachable|done].
Qed.

Lemma run_reachable w (es : list Event) w' :
  reachable w -> run w es = Some w' -> reachable w'.
Proof.
  revert w. induction es as [|e es IH]; intros w Hw Hrun; simpl in Hrun.
  - by injection Hrun as <-.
  - destruct (step w e) as [w1|] eqn:Hstep; [|done].
    eapply IH; [|exact Hrun]. eapply reachable_step; eauto.
Qed.

(** *** The guard of [handleSubmit] *)

(** C1. When the draft is non-empty after trimming and no request is in
    flight, submitting appends exactly one message of role [user] whose
    content is the draft as typed, untrimmed; whatever is appended later,
    the reply or error of this submission included, comes after it. *)
Theorem submit_appends_user_message w now :
  trim (input (store w)) <> [] ->
  isLoading (store w) = false ->
  exists w',
    step w (Submit now) = Some w' /\
    messages (store w') =
      messages (store w) ++
        [{| id := Number_prototype_toString now; role := user;
            content := JVal (JStr (input (store w))) |}] /\
    forall (es : list Event) w'',
      run w' es = Some w'' ->
      exists later,
        messages (store w'') =
          messages (store w) ++
            {| id := Number_prototype_toString now; role := user;
               content := JVal (JStr (input (store w))) |} :: later.
Proof.
  intros Hdraft Hidle. eexists. split; [reflexivity|].
  rewrite handleSubmit_passes by done. split; [reflexivity|].
  intros es w'' Hrun. apply run_messages in Hrun as [later ->].
  exists later. simpl. by rewrite <- app_assoc.
Qed.

(** C2. With a draft that is empty or made of white space only,
    submitting changes nothing: not the transcript, the draft, the loading
    flag or the last error, and no request is sent. *)
Theorem submit_blank_is_noop w now :
  forallb is_trimmed (input (store w)) = true ->
  step w (Submit now) = Some w.
Proof.
  intros Hblank. simpl. f_equal. apply handleSubmit_guarded. left.
  by apply trim_nil.
Qed.

(** C3. While the loading flag is set, submitting changes nothing, in
    any world: no message is added and no second request is sent. So in
    every reachable world at most one invocation of [handleSubmit] is
    suspended on the network. *)
Theorem one_request_at_a_time :
  (forall w now,
     isLoading (store w) = true -> step w (Submit now) = Some w) /\
  (forall w, reachable w -> length (tasks w) <= 1).
Proof.
  split.
  - intros w now Hbusy. simpl. f_equal. apply handleSubmit_guarded.
    by right.
  - intros w Hw. apply reachable_consistent in Hw. unfold consistent in Hw.
    destruct (isLoading (store w)).
    + destruct Hw as [_ [t ->]]. simpl. lia.
    + rewrite Hw. simpl. lia.
Qed.

(** *** The loading flag *)

(** C4. Along every execution the loading flag, false at the start, is
    raised by exactly the steps that append a [user] message and lowered
    by exactly the steps that append a [bot] message (a reply or an error
    text); no other step changes the flag or the transcript. So the flag
    is set from the append of the user's message up to the append that
    answers it, and at no other time. Every step that ends an invocation,
    through the [try] block or through [catch], leaves the flag false. *)
Theorem in_flight_between_appends w e w' :
  reachable w ->
  step w e = Some w' ->
  ((messages (store w') = messages (store w) /\
    isLoading (store w') = isLoading (store w))
   \/ (exists m, role m = user /\
         messages (store w') = messages (store w) ++ [m] /\
         isLoading (store w) = false /\ isLoading (store w') = true)
   \/ (exists m, role m = bot /\
         messages (store w') = messages (store w) ++ [m] /\
         isLoading (store w) = true /\ isLoading (store w') = false))
  /\ (settles e -> isLoading (store w') = false).
Proof.
  intros Hw Hstep. apply reachable_consistent in Hw.
  assert (Hfinish : forall i (r : result Message) now (t : Task),
    tasks w !! i = Some t -> (forall m, r = Ok m -> role m = bot) ->
    exists m, role m = bot /\
      messages (store (finish i r now w)) = messages (store w) ++ [m] /\
      isLoading (store w) = true /\
      isLoading (store (finish i r now w)) = false).
  { intros i r now t Hi Hr.
    destruct (consistent_task _ _ _ Hw Hi) as (Hl & _).
    destruct (settle_appends_bot r now (store w) Hr) as (m & ? & ? & ? & _).
    exists m. auto. }
  destruct e as [v|now|i ok|i msg now|i data now|i msg now];
    simpl in Hstep.
  - destruct (isLoading (store w)) eqn:Hl; [done|].
    injection Hstep as <-. simpl. split; [|done]. left. auto.
  - injection Hstep as <-. split; [|done].
    destruct (isLoading (store w)) eqn:Hl.
    { rewrite handleSubmit_guarded; auto. }
    destruct (trim (input (store w))) eqn:Ht.
    { rewrite handleSubmit_guarded; auto. }
    rewrite handleSubmit_passes; [|by rewrite Ht|done].
    right; left. eexists. simpl. split; [|split; [reflexivity|done]]. done.
  - awaited Hstep Hi. simpl. split; [|done]. left. auto.
  - awaited Hstep Hi.
    destruct (Hfinish i (Throw msg) now _ Hi) as (m & ? & ? & ? & ?); [done|].
    split; [|done]. right; right. eauto.
  - destruct (tasks w !! i) as [[|ok]|] eqn:Hi; try done.
    injection Hstep as <-.
    destruct (Hfinish i (try_after_json ok data now) now _ Hi)
      as (m & ? & ? & ? & ?); [apply try_after_json_bot|].
    split; [|done]. right; right. eauto.
  - awaited Hstep Hi.
    destruct (Hfinish i (Throw msg) now _ Hi) as (m & ? & ? & ? & ?); [done|].
    split; [|done]. right; right. eauto.
Qed.

(** *** The request *)

Lemma step_not_submit_sent w e w' :
  not_submit e -> step w e = Some w' -> sent w' = sent w.
Proof.
  intros He Hstep.
  destruct e as [v|now|i ok|i msg now|i data now|i msg now];
    simpl in Hstep; [|done|..].
  - destruct (isLoading (store w)); [done|]. by injection Hstep as <-.
  - by awaited Hstep Hi.
  - by awaited Hstep Hi.
  - by awaited Hstep Hi.
  - by awaited Hstep Hi.
Qed.

Lemma run_not_submit_sent w (es : list Event) w' :
  Forall not_submit es -> run w es = Some w' -> sent w' = sent w.
Proof.
  intros Hes. revert w.
  induction Hes as [|e es He _ IH]; intros w Hrun; simpl in Hrun.
  - by injection Hrun as <-.
  - destruct (step w e) as [w1|] eqn:Hstep; [|done].
    rewrite (IH _ Hrun). by eapply step_not_submit_sent.
Qed.

(** C5. A submission that passes the guard sends exactly one request: a
    POST with content type JSON whose body is the JSON text of an object
    with the single member [query], holding the draft as it was when the
    form was submitted, although the draft itself is empty by then. No
    later step other than a further submission sends anything: the
    request is never repeated. *)
Theorem submit_issues_one_request w now :
  trim (input (store w)) <> [] ->
  isLoading (store w) = false ->
  exists w',
    step w (Submit now) = Some w' /\
    sent w' =
      sent w ++
        [{| url := lit "http://127.0.0.1:8000/chat";
            method := lit "POST";
            headers := [(lit "Content-Type", lit "application/json")];
            body := JSON_stringify
                      (JObj [(lit "query", JStr (input (store w)))]) |}] /\
    input (store w') = [] /\
    forall (es : list Event) w'',
      Forall not_submit es -> run w' es = Some w'' -> sent w'' = sent w'.
Proof.
  intros Hdraft Hidle. exists (handleSubmit now w).
  split; [reflexivity|]. split; [|split].
  - by rewrite handleSubmit_passes.
  - by rewrite handleSubmit_passes.
  - intros es w''. apply run_not_submit_sent.
Qed.

(** The [try] block on a response without success status always
    throws; what it throws is read off [detail]. *)
Lemma try_after_json_failure (data : json) now :
  exists text,
    try_after_json false data now = Throw text /\
    (forall c d,
       get data (lit "detail") = Ok (JVal (JStr (c :: d))) ->
       text = c :: d) /\
    (forall detail,
       get data (lit "detail") = Ok detail -> truthy detail = false ->
       text = lit "An unknown error occurred.") /\
    (forall detail,
       get data (lit "detail") = Ok detail -> truthy detail = true ->
       ToString detail = Ok text \/ ToString detail = Throw text) /\
    (forall message,
       get data (lit "detail") = Throw message -> text = message).
Proof.
  unfold try_after_json. cbn [negb].
  destruct (get data (lit "detail")) as [detail|message] eqn:Hget;
    cbn [mbind result_mbind result_bind].
  - unfold logical_or. destruct (truthy detail) eqn:Htruthy.
    + assert (Hnew : new_Error detail = ToString detail)
        by (by destruct detail).
      rewrite Hnew.
      destruct (ToString detail) as [text|text] eqn:Hstring;
        cbn [result_bind]; exists text; (split; [done|]).
      * split.
        { intros c d [= ->]. simpl in Hstring. by injection Hstring. }
        split; [intros ? [= <-]; congruence|].
        split; [intros ? [= <-] _; by left|done].
      * split.
        { intros c d [= ->]. discriminate Hstring. }
        split; [intros ? [= <-]; congruence|].
        split; [intros ? [= <-] _; by right|done].
    + cbn [new_Error ToString ToString_json result_bind].
      exists (lit "An unknown error occurred."). split; [done|].
      split; [intros c d [= ->]; discriminate Htruthy|].
      split; [done|]. split; [intros ? [= <-]; congruence|done].
  - exists message. split; [done|]. split; [done|]. split; [done|].
    split; [done|]. by intros ? [= <-].
Qed.

(** *** Settling *)

(** A response arrives and its body is parsed: the two resumptions of an
    invocation suspended on [fetch]. *)
Lemma run_response w (i : nat) (ok : bool) (data : json) now :
  tasks w !! i = Some AwaitFetch ->
  run w [FetchResolved i ok; JsonResolved i data now] =
    Some (finish i (try_after_json ok data now) now
            {| store := store w;
               tasks := <[i := AwaitJson ok]> (tasks w);
               sent := sent w |}).
Proof.
  intros Hi. cbn [run step tasks]. rewrite Hi. cbn [run step tasks].
  by rewrite list_lookup_insert_eq by (by eapply lookup_lt_Some).
Qed.

(** C6. When the request is answered with a success status and a JSON
    object whose member [response] is a string, exactly one message is
    appended, of role [bot], with that string as its content, and the
    loading flag is back to false. *)
Theorem success_appends_reply w (i : nat)
    (members : list (jsstring * json)) (reply : jsstring) now :
  tasks w !! i = Some AwaitFetch ->
  own_property (lit "response") members = Some (JStr reply) ->
  exists w',
    run w [FetchResolved i true; JsonResolved i (JObj members) now]
      = Some w' /\
    messages (store w') =
      messages (store w) ++
        [{| id := Number_prototype_toString (now + 1); role := bot;
            content := JVal (JStr reply) |}] /\
    isLoading (store w') = false.
Proof.
  intros Hi Hreply. rewrite run_response by done.
  eexists. split; [reflexivity|].
  unfold try_after_json. cbn [negb get]. by rewrite Hreply.
Qed.

(** C7, as the code has it. When the request is answered with a
    non-success status, exactly one message is appended, of role [bot],
    with content ["Error: "] followed by the error text; the last error
    is the error text; the loading flag is back to false. For a body
    that parses, the error text is: [detail] if that is a string and
    not empty; ["An unknown error occurred."] if [detail] is falsy,
    that is absent (also from a body that is no object), the empty
    string, [null], [false] or zero; the conversion of [detail] to a
    string, or the message of the error that conversion throws, if
    [detail] is any other value; the message of the [TypeError] if the
    body is [null]. For a body that does not parse, the error text is
    the message of the parser. *)
Theorem failure_appends_error w (i : nat) now :
  tasks w !! i = Some AwaitFetch ->
  (forall data : json,
     exists w' text,
       run w [FetchResolved i false; JsonResolved i data now] = Some w' /\
       messages (store w') =
         messages (store w) ++
           [{| id := Number_prototype_toString (now + 1); role := bot;
               content := JVal (JStr (lit "Error: " ++ text)) |}] /\
       error (store w') = Some text /\
       isLoading (store w') = false /\
       (forall c d,
          get data (lit "detail") = Ok (JVal (JStr (c :: d))) ->
          text = c :: d) /\
       (forall detail,
          get data (lit "detail") = Ok detail -> truthy detail = false ->
          text = lit "An unknown error occurred.") /\
       (forall detail,
          get data (lit "detail") = Ok detail -> truthy detail = true ->
          ToString detail = Ok text \/ ToString detail = Throw text) /\
       (forall message,
          get data (lit "detail") = Throw message -> text = message)) /\
  (forall message : jsstring,
     exists w',
       run w [FetchResolved i false; JsonRejected i message now]
         = Some w' /\
       messages (store w') =
         messages (store w) ++
           [{| id := Number_prototype_toString (now + 1); role := bot;
               content := JVal (JStr (lit "Error: " ++ message)) |}] /\
       error (store w') = Some message /\
       isLoading (store w') = false).
Proof.
  intros Hi. split.
  - intros data. rewrite run_response by done.
    destruct (try_after_json_failure data now) as (text & Htry & Htext).
    exists (finish i (Throw text) now
              {| store := store w;
                 tasks := <[i := AwaitJson false]> (tasks w);
                 sent := sent w |}), text.
    rewrite Htry. split; [done|]. split; [done|]. split; [done|].
    split; [done|]. exact Htext.
  - intros message. cbn [run step tasks]. rewrite Hi. cbn [run step tasks].
    rewrite list_lookup_insert_eq by (by eapply lookup_lt_Some).
    eexists. split; [reflexivity|done].
Qed.

(** C8. When [fetch] rejects, exactly one message is appended, of role
    [bot], with content ["Error: "] followed by the message of the
    rejection; the last error is that message; the loading flag is back to
    false. The component is usable again: any draft that is not blank can
    be typed and submitted, and is sent. *)
Theorem transport_failure_appends_error w (i : nat) (message : jsstring) now :
  tasks w !! i = Some AwaitFetch ->
  exists w',
    step w (FetchRejected i message now) = Some w' /\
    messages (store w') =
      messages (store w) ++
        [{| id := Number_prototype_toString (now + 1); role := bot;
            content := JVal (JStr (lit "Error: " ++ message)) |}] /\
    error (store w') = Some message /\
    isLoading (store w') = false /\
    forall (draft : jsstring) now',
      trim draft <> [] ->
      exists w1 w2,
        step w' (Change draft) = Some w1 /\
        step w1 (Submit now') = Some w2 /\
        messages (store w2) =
          messages (store w') ++
            [{| id := Number_prototype_toString now'; role := user;
                content := JVal (JStr draft) |}] /\
        sent w2 = sent w' ++ [fetch_call draft].
Proof.
  intros Hi. eexists. split; [simpl; rewrite Hi; reflexivity|].
  split; [reflexivity|]. split; [reflexivity|]. split; [reflexivity|].
  intros draft now' Hdraft. eexists. eexists.
  split; [reflexivity|]. split; [reflexivity|].
  rewrite handleSubmit_passes by done. done.
Qed.

(** *** The draft *)

(** C10. A step that leaves a submission in flight, or that is taken
    while one is in flight, leaves the draft empty. So the draft is empty
    from the step that accepts a submission up to and including the step
    that ends it, whichever way it ends: the text submitted is not put
    back. *)
Theorem draft_stays_cleared w e w' :
  reachable w ->
  step w e = Some w' ->
  isLoading (store w') = true \/ isLoading (store w) = true ->
  input (store w') = [].
Proof.
  intros Hw Hstep Hbusy. apply reachable_consistent in Hw.
  assert (Hfinish : forall i (r : result Message) now (t : Task),
    tasks w !! i = Some t -> input (store (finish i r now w)) = []).
  { intros i r now t Hi.
    destruct (consistent_task _ _ _ Hw Hi) as (_ & Hin & _).
    by destruct r. }
  destruct e as [v|now|i ok|i msg now|i data now|i msg now];
    simpl in Hstep.
  - destruct (isLoading (store w)) eqn:Hl; [done|].
    injection Hstep as <-. simpl in Hbusy. rewrite Hl in Hbusy.
    by destruct Hbusy.
  - injection Hstep as <-.
    destruct (isLoading (store w)) eqn:Hl.
    { rewrite handleSubmit_guarded by auto.
      by apply consistent_busy in Hw as [? _]. }
    destruct (trim (input (store w))) eqn:Ht.
    { rewrite handleSubmit_guarded in * by auto.
      rewrite Hl in Hbusy. by destruct Hbusy. }
    rewrite handleSubmit_passes; [done|by rewrite Ht|done].
  - awaited Hstep Hi. simpl.
    by destruct (consistent_task _ _ _ Hw Hi) as (_ & Hin & _).
  - awaited Hstep Hi. eauto.
  - awaited Hstep Hi. eauto.
  - awaited Hstep Hi. eauto.
Qed.

(** *** Message ids *)

Lemma step_id w e w' :
  step w e = Some w' ->
  (messages (store w') = messages (store w) /\ id_number w e = None) \/
  exists m z,
    messages (store w') = messages (store w) ++ [m] /\
    id_number w e = Some z /\ id m = Number_prototype_toString z.
Proof.
  intros Hstep. destruct e as [v|now|i ok|i msg now|i data now|i msg now];
    simpl in Hstep.
  - destruct (isLoading (store w)); [done|]. injection Hstep as <-. by left.
  - injection Hstep as <-. unfold handleSubmit, id_number.
    destruct (_ || _); [by left|]. right. simpl. eauto.
  - awaited Hstep Hi.
    by left.
  - awaited Hstep Hi.
    right. simpl. eauto.
  - destruct (tasks w !! i) as [[|ok]|]; try done. injection Hstep as <-.
    right. simpl.
    destruct (try_after_json ok data now) as [m|msg] eqn:Htry; simpl.
    + exists m. eexists. split; [done|]. split; [done|].
      by eapply try_after_json_id.
    + eauto.
  - awaited Hstep Hi.
    right. simpl. eauto.
Qed.

(** The ids of a transcript are numerals of integers below [free]. *)
Lemma spaced_run_ids (es : list Event) : forall w w' (free : Z),
  spaced free w es ->
  run w es = Some w' ->
  (forall m, m ∈ messages (store w) ->
     exists z, (z < free)%Z /\ id m = Number_prototype_toString z) ->
  NoDup (map (fun m => id m) (messages (store w))) ->
  NoDup (map (fun m => id m) (messages (store w'))).
Proof.
  induction es as [|e es IH]; intros w w' free Hsp Hrun Hbelow Hnodup;
    simpl in Hrun.
  - by injection Hrun as <-.
  - simpl in Hsp. destruct (step w e) as [w1|] eqn:Hstep; [|done].
    destruct (step_id _ _ _ Hstep)
      as [[Hsame Hz] | (m & z & Happ & Hz & Hid)]; rewrite Hz in Hsp.
    + eapply (IH w1 w' free); eauto; by rewrite Hsame.
    + destruct Hsp as [Hle Hsp].
      eapply (IH w1 w' (z + 1)%Z); eauto.
      * rewrite Happ. intros m' Hm'. apply elem_of_app in Hm' as [Hm'|Hm'].
        -- destruct (Hbelow m' Hm') as (y & ? & ?). exists y.
           split; [lia|done].
        -- apply list_elem_of_singleton in Hm' as ->. exists z.
           split; [lia|done].
      * rewrite Happ, map_app. apply NoDup_app. split; [done|].
        split; [|apply NoDup_singleton].
        intros x Hx Hx'. simpl in Hx'.
        apply list_elem_of_singleton in Hx' as ->.
        apply list_elem_of_In, in_map_iff in Hx as (m' & Hid' & Hm').
        apply list_elem_of_In in Hm'.
        destruct (Hbelow m' Hm') as (y & Hy & Hidy).
        rewrite Hid, Hidy in Hid'.
        apply Number_prototype_toString_inj in Hid'. lia.
Qed.

(** X1. What the ids do guarantee: along an execution in which every
    message appended takes its id from an integer greater than that of
    every message appended before it (the clock reading of the submit
    for a message of the user, the reading at the end of the request
    plus one for a message of the bot), no two messages share an id.
    A submission the guard refuses reads no clock and is not
    constrained. *)
Theorem ids_unique_when_spaced (es : list Event) w (free : Z) :
  spaced free init es ->
  run init es = Some w ->
  NoDup (map (fun m => id m) (messages (store w))).
Proof.
  intros Hsp Hrun. eapply spaced_run_ids; eauto.
  - intros m Hm. simpl in Hm. by apply elem_of_nil in Hm.
  - simpl. apply NoDup_nil_2.
Qed.

(** C9, at the input where it fails. A reply is appended at clock reading
    1000 and the next draft is submitted at reading 1001: the reply and
    the new user message both get the id ["1001"]. *)
Theorem duplicate_id_after_reply :
  exists w,
    run init
      [Change (lit "a"); Submit 999; FetchResolved 0 true;
       JsonResolved 0 (JObj [(lit "response", JStr (lit "x"))]) 1000;
       Change (lit "b"); Submit 1001] = Some w /\
    map (fun m => (role m, id m)) (messages (store w)) =
      [(user, lit "999"); (bot, lit "1001"); (user, lit "1001")] /\
    ~ NoDup (map (fun m => id m) (messages (store w))).
Proof.
  eexists. split; [reflexivity|]. split; [reflexivity|].
  cbn. intros Hnodup.
  apply NoDup_cons in Hnodup as [_ Hnodup].
  apply NoDup_cons in Hnodup as [Hfresh _].
  apply Hfresh. left.
Qed.

(** *** The shape of a step *)

(** From a consistent world a step is of one of three kinds: it leaves
    transcript, flag, last error and requests alone; it accepts a
    submission; or it ends the invocation in flight. *)
Lemma step_kind w e w' :
  consistent w ->
  step w e = Some w' ->
  (messages (store w') = messages (store w) /\
   isLoading (store w') = isLoading (store w) /\
   error (store w') = error (store w) /\
   sent w' = sent w)
  \/ (isLoading (store w) = false /\
      trim (input (store w)) <> [] /\
      (exists now, e = Submit now /\
         messages (store w') =
           messages (store w) ++
             [{| id := Number_prototype_toString now; role := user;
                 content := JVal (JStr (input (store w))) |}]) /\
      isLoading (store w') = true /\
      error (store w') = None /\
      sent w' = sent w ++ [fetch_call (input (store w))])
  \/ (isLoading (store w) = true /\
      isLoading (store w') = false /\
      sent w' = sent w /\
      exists m,
        role m = bot /\
        messages (store w') = messages (store w) ++ [m] /\
        (error (store w') = error (store w) \/
         exists text,
           error (store w') = Some text /\
           content m = JVal (JStr (lit "Error: " ++ text)))).
Proof.
  intros Hw Hstep.
  assert (Hthrow : forall i msg now (t : Task),
    tasks w !! i = Some t ->
    isLoading (store w) = true /\
    isLoading (store (finish i (Throw msg) now w)) = false /\
    sent (finish i (Throw msg) now w) = sent w /\
    exists m,
      role m = bot /\
      messages (store (finish i (Throw msg) now w))
        = messages (store w) ++ [m] /\
      (error (store (finish i (Throw msg) now w)) = error (store w) \/
       exists text,
         error (store (finish i (Throw msg) now w)) = Some text /\
         content m = JVal (JStr (lit "Error: " ++ text)))).
  { intros i msg now t Hi.
    destruct (consistent_task _ _ _ Hw Hi) as (Hl & _).
    split; [done|]. split; [done|]. split; [done|].
    eexists. split; [|split; [reflexivity|right; eauto]]. done. }
  destruct e as [v|now|i ok|i msg now|i data now|i msg now];
    simpl in Hstep.
  - destruct (isLoading (store w)) eqn:Hl; [done|].
    injection Hstep as <-. left. simpl. auto.
  - injection Hstep as <-.
    destruct (isLoading (store w)) eqn:Hl.
    { rewrite handleSubmit_guarded by auto. left. auto. }
    destruct (trim (input (store w))) eqn:Ht.
    { rewrite handleSubmit_guarded by auto. left. auto. }
    rewrite handleSubmit_passes; [|by rewrite Ht|done].
    right; left. simpl. split; [done|]. split; [done|].
    split; [eauto|done].
  - awaited Hstep Hi. left. simpl. auto.
  - awaited Hstep Hi. right; right. eauto.
  - destruct (tasks w !! i) as [[|ok]|] eqn:Hi; try done.
    injection Hstep as <-.
    destruct (try_after_json ok data now) as [m|msg] eqn:Htry.
    + destruct (consistent_task _ _ _ Hw Hi) as (Hl & _).
      right; right. split; [done|]. split; [done|]. split; [done|].
      exists m. split; [by eapply try_after_json_bot|].
      split; [reflexivity|by left].
    + right; right. eauto.
  - awaited Hstep Hi. right; right. eauto.
Qed.

Lemma concat_replicate_snoc {A} (n : nat) (l : list A) :
  concat (replicate n l) ++ l = concat (replicate (S n) l).
Proof.
  induction n as [|n IH]; simpl; [by rewrite app_nil_r|].
  rewrite <- app_assoc. by rewrite IH.
Qed.

(** *** The transcript *)

(** The roles of the transcript, in every reachable world: exchanges of
    a [user] message and the [bot] message answering it, then the
    [user] message awaiting its answer if a request is in flight. *)
Lemma reachable_roles w :
  reachable w ->
  exists n,
    map (fun m => role m) (messages (store w)) =
      concat (replicate n [user; bot]) ++
        (if isLoading (store w) then [user] else []).
Proof.
  induction 1 as [|w e w' Hw [n IH] Hstep]; [by exists 0|].
  apply reachable_consistent in Hw.
  destruct (step_kind _ _ _ Hw Hstep)
    as [(Hm & Hl & _)
       |[(Hl & _ & (now & _ & Hm) & Hl' & _)
        |(Hl & Hl' & _ & m & Hm & Happ & _)]].
  - exists n. by rewrite Hm, Hl.
  - exists n. rewrite Hm, Hl', map_app, IH, Hl. simpl.
    by rewrite app_nil_r.
  - exists (S n). rewrite Happ, Hl', map_app, IH, Hl. simpl map.
    rewrite Hm, <- app_assoc, app_nil_r.
    by rewrite <- concat_replicate_snoc.
Qed.

(** X2. The transcript is append-only: after any sequence of events it
    is the transcript before, unchanged, followed by at most one new
    message for each event. *)
Theorem transcript_append_only w (es : list Event) w' :
  run w es = Some w' ->
  exists later,
    messages (store w') = messages (store w) ++ later /\
    length later <= length es.
Proof.
  revert w. induction es as [|e es IH]; intros w Hrun; simpl in Hrun.
  - injection Hrun as <-. exists []. by rewrite app_nil_r.
  - destruct (step w e) as [w1|] eqn:Hstep; [|done].
    destruct (IH _ Hrun) as (later & Hlater & Hlen). rewrite Hlater.
    destruct (step_messages _ _ _ Hstep) as [-> | [m ->]].
    + exists later. split; [done|]. simpl. lia.
    + exists (m :: later). rewrite <- app_assoc. split; [done|].
      simpl. lia.
Qed.

(** X3. In every reachable world the transcript is a sequence of
    exchanges, each a [user] message followed by the [bot] message that
    answers it, ending with one more [user] message exactly when a
    request is in flight. *)
Theorem transcript_alternates w :
  reachable w ->
  exists n,
    map (fun m => role m) (messages (store w)) =
      concat (replicate n [user; bot]) ++
        (if isLoading (store w) then [user] else []).
Proof. apply reachable_roles. Qed.

(** X4. In every reachable world the requests sent so far are, in
    order, one for each [user] message of the transcript, carrying the
    text of that message; and that text is never blank. *)
Theorem requests_match_user_messages w :
  reachable w ->
  sent w = omap request_for (messages (store w)) /\
  Forall (fun m => role m = user ->
            exists query,
              content m = JVal (JStr query) /\ trim query <> [])
    (messages (store w)).
Proof.
  induction 1 as [|w e w' Hw [IHsent IHall] Hstep].
  { split; [done|]. simpl. apply Forall_nil_2. }
  apply reachable_consistent in Hw.
  destruct (step_kind _ _ _ Hw Hstep)
    as [(Hm & _ & _ & Hs)
       |[(_ & Hdraft & (now & _ & Hm) & _ & _ & Hs)
        |(_ & _ & Hs & m & Hm & Happ & _)]].
  - by rewrite Hm, Hs.
  - rewrite Hm, Hs, omap_app, IHsent. split; [done|].
    apply Forall_app. split; [done|].
    apply Forall_singleton. intros _. eauto.
  - rewrite Happ, Hs, omap_app, IHsent. simpl.
    assert (request_for m = None) as ->
      by (unfold request_for; by rewrite Hm).
    split; [by rewrite app_nil_r|].
    apply Forall_app. split; [done|].
    apply Forall_singleton. by rewrite Hm.
Qed.

(** X5. In every reachable world the last error, when there is one, is
    the text of the last message of the transcript after its prefix
    ["Error: "], and that message is the [bot]'s; while a request is in
    flight there is no last error. *)
Theorem error_matches_last_message w :
  reachable w ->
  match error (store w) with
  | Some text =>
      isLoading (store w) = false /\
      exists m,
        last (messages (store w)) = Some m /\
        role m = bot /\
        content m = JVal (JStr (lit "Error: " ++ text))
  | None => True
  end.
Proof.
  induction 1 as [|w e w' Hw IH Hstep]; [done|].
  apply reachable_consistent in Hw.
  destruct (step_kind _ _ _ Hw Hstep)
    as [(Hm & Hl & He & _)
       |[(_ & _ & _ & _ & He & _)
        |(Hl & Hl' & _ & m & Hm & Happ & He)]].
  - by rewrite Hm, Hl, He.
  - by rewrite He.
  - destruct He as [He | (text & He & Hc)].
    + rewrite He. destruct (error (store w)) as [text|]; [|done].
      destruct IH as [Hidle _]. congruence.
    + rewrite He. split; [done|]. exists m. by rewrite Happ, last_snoc.
Qed.

(** *** One exchange, from submission to answer *)

Lemma try_after_json_content (ok : bool) (data : json) now (m : Message) :
  try_after_json ok data now = Ok m ->
  ok = true /\ get data (lit "response") = Ok (content m).
Proof.
  unfold try_after_json. destruct ok; simpl.
  - destruct (get data (lit "response")); simpl; [|discriminate].
    by intros [= <-].
  - destruct (get data (lit "detail")); simpl; [|discriminate].
    destruct (new_Error _); discriminate.
Qed.

Lemma round_trip_run w (o : Outcome) (t t' : Z) :
  consistent w ->
  isLoading (store w) = false ->
  trim (input (store w)) <> [] ->
  renders o ->
  exists w' reply,
    run w (Submit t :: outcome_events 0 o t') = Some w' /\
    messages (store w') =
      messages (store w) ++
        [{| id := Number_prototype_toString t; role := user;
            content := JVal (JStr (input (store w))) |};
         reply] /\
    role reply = bot /\
    id reply = Number_prototype_toString (t' + 1) /\
    isLoading (store w') = false /\
    input (store w') = [] /\
    tasks w' = [] /\
    sent w' = sent w ++ [fetch_call (input (store w))] /\
    React_child (content reply) = true.
Proof.
  intros Hw Hidle Hdraft Hrenders.
  pose proof (consistent_idle _ Hw Hidle) as Htasks.
  cbn [run step]. rewrite handleSubmit_passes by done. rewrite Htasks.
  destruct o as [msg|ok msg|ok data]; cbn.
  - eexists. eexists. split; [reflexivity|]. cbn.
    rewrite <- app_assoc. done.
  - eexists. eexists. split; [reflexivity|]. cbn.
    rewrite <- app_assoc. done.
  - destruct (try_after_json ok data t') as [m|msg] eqn:Htry.
    + exists
        {| store :=
             {| messages :=
                  (messages (store w) ++
                     [{| id := Number_prototype_toString t; role := user;
                         content := JVal (JStr (input (store w))) |}])
                  ++ [m];
                input := []; isLoading := false; error := None |};
           tasks := [];
           sent := sent w ++ [fetch_call (input (store w))] |}.
      exists m. split; [reflexivity|]. cbn. rewrite <- app_assoc.
      split; [done|]. split; [by eapply try_after_json_bot|].
      split; [by eapply try_after_json_id|].
      do 4 (split; [done|]).
      apply try_after_json_content in Htry as [-> Hget].
      by apply Hrenders.
    + eexists. eexists. split; [reflexivity|]. cbn.
      rewrite <- app_assoc. done.
Qed.

(** X6. From a reachable world with no request in flight, a draft that
    is not blank and a transcript the render accepts, a submission
    followed by any outcome of its request (rejection, unparsable body,
    parsed body, whatever the status) whose reply the render accepts,
    none of its text being a plain object, runs to its end: the
    transcript grows by the user's message and one [bot] message whose
    id is built from the clock reading at the end, one request is sent,
    the component is idle again with an empty draft, and the render
    accepts the new transcript. *)
Theorem round_trip w (o : Outcome) (t t' : Z) :
  reachable w ->
  isLoading (store w) = false ->
  trim (input (store w)) <> [] ->
  Forall (fun m => React_child (content m) = true) (messages (store w)) ->
  renders o ->
  exists w' reply,
    run w (Submit t :: outcome_events 0 o t') = Some w' /\
    messages (store w') =
      messages (store w) ++
        [{| id := Number_prototype_toString t; role := user;
            content := JVal (JStr (input (store w))) |};
         reply] /\
    role reply = bot /\
    id reply = Number_prototype_toString (t' + 1) /\
    isLoading (store w') = false /\
    input (store w') = [] /\
    tasks w' = [] /\
    sent w' = sent w ++ [fetch_call (input (store w))] /\
    Forall (fun m => React_child (content m) = true)
      (messages (store w')).
Proof.
  intros Hw Hidle Hdraft Hshown Hrenders.
  apply reachable_consistent in Hw.
  destruct (round_trip_run w o t t' Hw Hidle Hdraft Hrenders)
    as (w' & reply & Hrun & Hm & Hrole & Hid & Hl & Hin & Ht & Hs & Hreply).
  exists w', reply. do 8 (split; [done|]).
  rewrite Hm. apply Forall_app. split; [done|].
  apply Forall_cons. split; [done|]. by apply Forall_singleton.
Qed.

(** *** Bodies the handler does not expect *)

(** A response arrives and its body fails to parse. *)
Lemma run_unparsable w (i : nat) (ok : bool) (message : jsstring) now :
  tasks w !! i = Some AwaitFetch ->
  run w [FetchResolved i ok; JsonRejected i message now] =
    Some (finish i (Throw message) now
            {| store := store w;
               tasks := <[i := AwaitJson ok]> (tasks w);
               sent := sent w |}).
Proof.
  intros Hi. cbn [run step tasks]. rewrite Hi. cbn [run step tasks].
  by rewrite list_lookup_insert_eq by (by eapply lookup_lt_Some).
Qed.

Lemma ToString_objects (objs : list (list (jsstring * json))) :
  Forall (fun members => own_property (lit "toString") members = None)
    objs ->
  ToString_json (JArr (map JObj objs)) =
    Ok (join (lit ",") (replicate (length objs) (lit "[object Object]"))).
Proof.
  intros Hobjs. cbn [ToString_json].
  match goal with
  | |- result_bind _ (?elements _) = _ =>
      assert (elements (map JObj objs) =
                Ok (replicate (length objs) (lit "[object Object]")))
        as ->; [|done]
  end.
  induction Hobjs as [|members objs Hmembers _ IH]; [done|].
  cbn [map length replicate]. cbn [ToString_json]. rewrite Hmembers.
  cbn [result_bind]. by rewrite IH.
Qed.

(** X7. When a non-success response carries a [detail] that is an array
    of objects, none of which has a member named [toString], the error
    text does not show it: it is ["[object Object]"], once for each
    element, joined by commas. *)
Theorem structured_detail_is_not_shown w (i : nat)
    (members : list (jsstring * json))
    (objs : list (list (jsstring * json))) now :
  tasks w !! i = Some AwaitFetch ->
  own_property (lit "detail") members = Some (JArr (map JObj objs)) ->
  Forall (fun members => own_property (lit "toString") members = None)
    objs ->
  exists w',
    run w [FetchResolved i false; JsonResolved i (JObj members) now]
      = Some w' /\
    error (store w') =
      Some (join (lit ",")
              (replicate (length objs) (lit "[object Object]"))) /\
    messages (store w') =
      messages (store w) ++
        [{| id := Number_prototype_toString (now + 1); role := bot;
            content :=
              JVal (JStr (lit "Error: " ++
                            join (lit ",")
                              (replicate (length objs)
                                 (lit "[object Object]")))) |}].
Proof.
  intros Hi Hdetail Hobjs. rewrite run_response by done.
  eexists. split; [reflexivity|].
  unfold try_after_json. cbn [negb get]. rewrite Hdetail.
  cbn [mbind result_mbind result_bind logical_or truthy new_Error ToString].
  rewrite (ToString_objects objs Hobjs). done.
Qed.

(** X8. When a success response has a body other than [null] without a
    member [response] (an object lacking it, or a string, number,
    boolean or array), a [bot] message with no text ([undefined]) is
    appended, the last error is left as it was, and the loading flag is
    back to false. *)
Theorem reply_without_response_is_blank w (i : nat) (data : json) now :
  tasks w !! i = Some AwaitFetch ->
  data <> JNull ->
  (forall members,
     data = JObj members -> own_property (lit "response") members = None) ->
  exists w',
    run w [FetchResolved i true; JsonResolved i data now] = Some w' /\
    messages (store w') =
      messages (store w) ++
        [{| id := Number_prototype_toString (now + 1); role := bot;
            content := JUndefined |}] /\
    error (store w') = error (store w) /\
    isLoading (store w') = false.
Proof.
  intros Hi Hnull Hmissing. rewrite run_response by done.
  eexists. split; [reflexivity|].
  unfold try_after_json. cbn [negb].
  destruct data as [|b|n|str|xs|members]; try done.
  cbn [get]. by rewrite (Hmissing members eq_refl).
Qed.

(** X9. Whatever the status of the response, a body that cannot be
    parsed, or that is [null], ends in the error path: one [bot] message
    ["Error: "] followed by the message of the failure is appended (the
    parser's, or that of the [TypeError] for reading [response] or
    [detail] from [null]), it becomes the last error, and the loading
    flag is back to false. *)
Theorem body_failure_is_reported w (i : nat) (ok : bool) now :
  tasks w !! i = Some AwaitFetch ->
  (forall message,
     exists w',
       run w [FetchResolved i ok; JsonRejected i message now] = Some w' /\
       messages (store w') =
         messages (store w) ++
           [{| id := Number_prototype_toString (now + 1); role := bot;
               content := JVal (JStr (lit "Error: " ++ message)) |}] /\
       error (store w') = Some message /\
       isLoading (store w') = false) /\
  (exists w',
     run w [FetchResolved i ok; JsonResolved i JNull now] = Some w' /\
     messages (store w') =
       messages (store w) ++
         [{| id := Number_prototype_toString (now + 1); role := bot;
             content :=
               JVal (JStr (lit "Error: " ++
                             null_read_message
                               (if ok then lit "response"
                                else lit "detail"))) |}] /\
     error (store w') =
       Some (null_read_message
               (if ok then lit "response" else lit "detail")) /\
     isLoading (store w') = false).
Proof.
  intros Hi. split.
  - intros message. rewrite run_unparsable by done.
    eexists. split; [reflexivity|done].
  - rewrite run_response by done. eexists. split; [reflexivity|].
    by destruct ok.
Qed.

(** *** The view *)

Lemma last_map {A B} (f : A -> B) (l : list A) :
  last (map f l) = option_map f (last l).
Proof.
  induction l as [|a [|b l] IH]; [done..|]. exact IH.
Qed.

Lemma justify_exchanges (n : nat) :
  map (fun r : Role =>
         match r with
         | user => lit "justify-end"
         | bot => lit "justify-start"
         end)
    (concat (replicate n [user; bot])) =
  concat (replicate n [lit "justify-end"; lit "justify-start"]).
Proof. induction n as [|n IH]; [done|]. simpl. by rewrite IH. Qed.

(** X10. In every reachable world the entries of the log alternate,
    right-aligned then left-aligned: every message of the user is
    directly followed by a left-aligned entry, the answer or, while the
    request is in flight, the ["Bot is thinking..."] entry. *)
Theorem log_alternates w :
  reachable w ->
  exists n,
    map (fun b => justify b) (log (ChatInterface (store w))) =
      concat (replicate n [lit "justify-end"; lit "justify-start"]).
Proof.
  intros Hw. destruct (reachable_roles w Hw) as [n Hroles].
  assert (Hrows :
    map (fun b => justify b) (map message_row (messages (store w))) =
    map (fun r : Role =>
           match r with
           | user => lit "justify-end"
           | bot => lit "justify-start"
           end)
      (map (fun m => role m) (messages (store w)))).
  { rewrite !map_map. apply map_ext. intros m. reflexivity. }
  cbn [ChatInterface log]. rewrite map_app, Hrows, Hroles, map_app.
  rewrite justify_exchanges.
  destruct (isLoading (store w)).
  - exists (S n). rewrite <- concat_replicate_snoc.
    by rewrite <- app_assoc.
  - exists n. by rewrite !app_nil_r.
Qed.

(** X11. In every reachable world the input and the submit button are
    disabled together, exactly when the last entry of the log is the
    ["Bot is thinking..."] entry, and the input is then empty. *)
Theorem disabled_while_thinking w :
  reachable w ->
  submit_disabled (ChatInterface (store w))
    = input_disabled (ChatInterface (store w)) /\
  (input_disabled (ChatInterface (store w)) = true <->
   last (log (ChatInterface (store w))) = Some thinking_row) /\
  (input_disabled (ChatInterface (store w)) = true ->
   value (ChatInterface (store w)) = []).
Proof.
  intros Hw. apply reachable_consistent in Hw.
  split; [done|]. cbn [ChatInterface input_disabled log value]. split.
  - destruct (isLoading (store w)).
    + split; [|done]. intros _. apply last_snoc.
    + rewrite app_nil_r, last_map. split; [done|].
      destruct (last (messages (store w))); discriminate.
  - intros Hbusy. by apply consistent_busy in Hw as [? _].
Qed.

(** *** The scroll effect *)

Lemma step_deps w e w' :
  step w e = Some w' ->
  (messages (store w') = messages (store w) /\
   isLoading (store w') = isLoading (store w)) \/
  exists m, messages (store w') = messages (store w) ++ [m].
Proof.
  intros Hstep. destruct e as [v|now|i ok|i msg now|i data now|i msg now];
    simpl in Hstep.
  - destruct (isLoading (store w)) eqn:Hl; [done|].
    injection Hstep as <-. left. simpl. by rewrite Hl.
  - injection Hstep as <-. unfold handleSubmit.
    destruct (_ || _); [by left|]. right. simpl. eauto.
  - awaited Hstep Hi. by left.
  - awaited Hstep Hi. right. simpl. eauto.
  - awaited Hstep Hi. right. simpl.
    destruct (try_after_json _ _ _); simpl; eauto.
  - awaited Hstep Hi. right. simpl. eauto.
Qed.

(** X12. The effect that scrolls the log to its end runs again after
    exactly the steps that append a message: a dependency of the effect
    has changed if and only if the transcript has grown. Editing the
    draft, a submission that is refused and the arrival of a response
    before its body never run it. *)
Theorem scroll_effect_runs_on_append w e w' :
  step w e = Some w' ->
  scroll_deps (store w') <> scroll_deps (store w) <->
  exists m, messages (store w') = messages (store w) ++ [m].
Proof.
  intros Hstep. unfold scroll_deps. split.
  - intros Hdeps.
    destruct (step_deps _ _ _ Hstep) as [[Hm Hl] | Happ]; [|done].
    by rewrite Hm, Hl in Hdeps.
  - intros [m Hm] [= Hdeps _]. rewrite Hm in Hdeps.
    apply (f_equal length) in Hdeps. rewrite length_app in Hdeps.
    simpl in Hdeps. lia.
Qed.

End ChatFacts.

(** ** Worked instances, on [example_engine] *)

#[local] Existing Instance example_engine.

Lemma submit_appends_user_message_witness :
  exists w',
    step (typed (lit " hi ")) (Submit 999) = Some w' /\
    messages (store w') =
      [{| id := lit "999"; role := user;
          content := JVal (JStr (lit " hi ")) |}].
Proof.
  destruct (submit_appends_user_message
              (typed (lit " hi ")) 999) as (w' & Hstep & Hmsgs & _);
    [by vm_compute|reflexivity|].
  exists w'. split; [exact Hstep|exact Hmsgs].
Defined.

Lemma submit_blank_is_noop_witness :
  forallb is_trimmed [32; 9; 160; 10]%N = true /\
  step (typed [32; 9; 160; 10]%N) (Submit 999)
    = Some (typed [32; 9; 160; 10]%N).
Proof.
  split; [reflexivity|].
  apply (submit_blank_is_noop
           (typed [32; 9; 160; 10]%N) 999).
  reflexivity.
Defined.

Lemma one_request_at_a_time_witness :
  step (asked (lit "a") 999) (Submit 1000) = Some (asked (lit "a") 999) /\
  length (tasks (asked (lit "a") 999)) <= 1.
Proof.
  split.
  - apply (proj1 one_request_at_a_time (asked (lit "a") 999) 1000%Z).
    reflexivity.
  - apply (proj2 one_request_at_a_time (asked (lit "a") 999)).
    apply asked_reachable.
Defined.

Lemma in_flight_between_appends_witness :
  exists w',
    step (asked (lit "a") 999) (FetchRejected 0 (lit "Failed to fetch") 1500)
      = Some w' /\
    isLoading (store (asked (lit "a") 999)) = true /\
    isLoading (store w') = false.
Proof.
  eexists. split; [reflexivity|]. split; [reflexivity|].
  apply (in_flight_between_appends (asked (lit "a") 999)
           (FetchRejected 0 (lit "Failed to fetch") 1500));
    [apply asked_reachable|reflexivity|exact I].
Defined.

Lemma submit_issues_one_request_witness :
  exists w',
    step (typed (lit "a")) (Submit 999) = Some w' /\
    sent w' = [fetch_call (lit "a")] /\
    input (store w') = [].
Proof.
  destruct (submit_issues_one_request (typed (lit "a")) 999)
    as (w' & Hstep & Hsent & Hinput & _); [by vm_compute|reflexivity|].
  exists w'. split; [exact Hstep|]. split; [exact Hsent|exact Hinput].
Defined.

Lemma success_appends_reply_witness :
  exists w',
    run (asked (lit "a") 999)
      [FetchResolved 0 true;
       JsonResolved 0
         (JObj [(lit "response", JStr (lit "Paris is the capital."))])
         1500] = Some w' /\
    messages (store w') =
      messages (store (asked (lit "a") 999)) ++
        [{| id := lit "1501"; role := bot;
            content := JVal (JStr (lit "Paris is the capital.")) |}] /\
    isLoading (store w') = false.
Proof.
  apply (success_appends_reply (asked (lit "a") 999) 0
           [(lit "response", JStr (lit "Paris is the capital."))]
           (lit "Paris is the capital.") 1500); reflexivity.
Defined.

Lemma failure_appends_error_witness :
  exists w',
    run (asked (lit "a") 999)
      [FetchResolved 0 false;
       JsonResolved 0 (JObj [(lit "detail", JStr (lit "File not found"))])
         1500] = Some w' /\
    messages (store w') =
      messages (store (asked (lit "a") 999)) ++
        [{| id := lit "1501"; role := bot;
            content := JVal (JStr (lit "Error: File not found")) |}] /\
    error (store w') = Some (lit "File not found") /\
    isLoading (store w') = false.
Proof.
  destruct (proj1 (failure_appends_error (asked (lit "a") 999) 0 1500
                     eq_refl)
              (JObj [(lit "detail", JStr (lit "File not found"))]))
    as (w' & text & Hrun & Hmsgs & Herror & Hidle & Hstring & _).
  pose proof (Hstring _ _ eq_refl) as ->.
  exists w'. split; [exact Hrun|]. split; [exact Hmsgs|].
  split; [exact Herror|exact Hidle].
Defined.

(** C7 as written fails in four ways. With [detail] present and the
    empty string the error text is the fallback, not [detail]. With no
    [detail] string the error text is not always the fallback: for the
    body [null] it is the message of the [TypeError], for a body that
    does not parse the message of the parser, for [detail] equal to
    [true] the text ["true"]. *)
Lemma failure_text_counterexample :
  (own_property (lit "detail") [(lit "detail", JStr [])] = Some (JStr []) /\
   exists w',
     run (asked (lit "a") 999)
       [FetchResolved 0 false;
        JsonResolved 0 (JObj [(lit "detail", JStr [])]) 1500] = Some w' /\
     error (store w') = Some (lit "An unknown error occurred.") /\
     error (store w') <> Some [] /\
     last (messages (store w')) =
       Some {| id := lit "1501"; role := bot;
               content :=
                 JVal (JStr (lit "Error: An unknown error occurred.")) |})
  /\ (exists w',
        run (asked (lit "a") 999)
          [FetchResolved 0 false; JsonResolved 0 JNull 1500] = Some w' /\
        error (store w') =
          Some (lit "Cannot read properties of null (reading 'detail')") /\
        error (store w') <> Some (lit "An unknown error occurred."))
  /\ (exists w',
        run (asked (lit "a") 999)
          [FetchResolved 0 false;
           JsonRejected 0 (lit "Unexpected token '<'") 1500] = Some w' /\
        error (store w') = Some (lit "Unexpected token '<'") /\
        error (store w') <> Some (lit "An unknown error occurred."))
  /\ (exists w',
        run (asked (lit "a") 999)
          [FetchResolved 0 false;
           JsonResolved 0 (JObj [(lit "detail", JBool true)]) 1500]
          = Some w' /\
        error (store w') = Some (lit "true") /\
        error (store w') <> Some (lit "An unknown error occurred.")).
Proof.
  split.
  { split; [reflexivity|]. eexists. split; [reflexivity|].
    split; [reflexivity|]. split; [discriminate|reflexivity]. }
  split; [|split];
    (eexists; split; [reflexivity|]; split; [reflexivity|discriminate]).
Qed.

Lemma transport_failure_appends_error_witness :
  exists w',
    step (asked (lit "a") 999) (FetchRejected 0 (lit "Failed to fetch") 1500)
      = Some w' /\
    messages (store w') =
      messages (store (asked (lit "a") 999)) ++
        [{| id := lit "1501"; role := bot;
            content := JVal (JStr (lit "Error: Failed to fetch")) |}] /\
    error (store w') = Some (lit "Failed to fetch") /\
    isLoading (store w') = false.
Proof.
  destruct (transport_failure_appends_error (asked (lit "a") 999) 0
              (lit "Failed to fetch") 1500)
    as (w' & Hstep & Hmsgs & Herror & Hidle & _); [reflexivity|].
  exists w'. split; [exact Hstep|]. split; [exact Hmsgs|].
  split; [exact Herror|exact Hidle].
Defined.

Lemma draft_stays_cleared_witness :
  exists w',
    step (asked (lit "a") 999) (FetchRejected 0 (lit "Failed to fetch") 1500)
      = Some w' /\
    input (store w') = [].
Proof.
  eexists. split; [reflexivity|].
  apply (draft_stays_cleared (asked (lit "a") 999)
           (FetchRejected 0 (lit "Failed to fetch") 1500));
    [apply asked_reachable|reflexivity|right; reflexivity].
Defined.

Lemma ids_unique_when_spaced_witness :
  exists w,
    run init
      [Change (lit "a"); Submit 1000; Submit 5;
       FetchRejected 0 (lit "Failed to fetch") 1000;
       Change (lit "b"); Submit 1002; FetchResolved 0 true;
       JsonResolved 0 (JObj [(lit "response", JStr (lit "x"))]) 1002]
      = Some w /\
    map (fun m => id m) (messages (store w)) =
      [lit "1000"; lit "1001"; lit "1002"; lit "1003"] /\
    NoDup (map (fun m => id m) (messages (store w))).
Proof.
  eexists. split; [reflexivity|]. split; [reflexivity|].
  apply (ids_unique_when_spaced
           [Change (lit "a"); Submit 1000; Submit 5;
            FetchRejected 0 (lit "Failed to fetch") 1000;
            Change (lit "b"); Submit 1002; FetchResolved 0 true;
            JsonResolved 0 (JObj [(lit "response", JStr (lit "x"))]) 1002]
           _ 0);
    [vm_compute; repeat split; discriminate|reflexivity].
Defined.

Lemma transcript_append_only_witness :
  exists later,
    messages
      (store (finish 0 (Throw (lit "Failed to fetch")) 1500
                (asked (lit "a") 999))) =
      messages (store (asked (lit "a") 999)) ++ later /\
    length later <= 1.
Proof.
  apply (transcript_append_only (asked (lit "a") 999)
           [FetchRejected 0 (lit "Failed to fetch") 1500]).
  reflexivity.
Defined.

Lemma transcript_alternates_witness :
  exists n,
    map (fun m => role m) (messages (store (asked (lit "a") 999))) =
      concat (replicate n [user; bot]) ++ [user].
Proof.
  apply (transcript_alternates (asked (lit "a") 999)).
  apply asked_reachable.
Defined.

Lemma requests_match_user_messages_witness :
  sent (asked (lit "a") 999) =
    omap request_for (messages (store (asked (lit "a") 999))) /\
  Forall (fun m => role m = user ->
            exists query,
              content m = JVal (JStr query) /\ trim query <> [])
    (messages (store (asked (lit "a") 999))).
Proof.
  apply (requests_match_user_messages (asked (lit "a") 999)).
  apply asked_reachable.
Defined.

Lemma error_matches_last_message_witness :
  isLoading
    (store (finish 0 (Throw (lit "Failed to fetch")) 1500
              (asked (lit "a") 999))) = false /\
  exists m,
    last (messages
            (store (finish 0 (Throw (lit "Failed to fetch")) 1500
                      (asked (lit "a") 999)))) = Some m /\
    role m = bot /\
    content m = JVal (JStr (lit "Error: Failed to fetch")).
Proof.
  apply (error_matches_last_message
           (finish 0 (Throw (lit "Failed to fetch")) 1500
              (asked (lit "a") 999))).
  apply (reachable_step (asked (lit "a") 999)
           (FetchRejected 0 (lit "Failed to fetch") 1500));
    [apply asked_reachable|reflexivity].
Defined.

Lemma round_trip_witness :
  exists w' reply,
    run (typed (lit "a"))
      (Submit 999 ::
         outcome_events 0
           (Answered true (JObj [(lit "response", JStr (lit "x"))])) 1500)
      = Some w' /\
    messages (store w') =
      [{| id := lit "999"; role := user; content := JVal (JStr (lit "a")) |};
       reply] /\
    role reply = bot /\
    id reply = lit "1501" /\
    isLoading (store w') = false /\
    input (store w') = [] /\
    tasks w' = [] /\
    sent w' = [fetch_call (lit "a")] /\
    Forall (fun m => React_child (content m) = true)
      (messages (store w')).
Proof.
  apply (round_trip (typed (lit "a"))
           (Answered true (JObj [(lit "response", JStr (lit "x"))]))
           999 1500);
    [apply typed_reachable|reflexivity|by vm_compute|apply Forall_nil_2|].
  intros v [= <-]. reflexivity.
Defined.

Lemma structured_detail_is_not_shown_witness :
  exists w',
    run (asked (lit "a") 999)
      [FetchResolved 0 false;
       JsonResolved 0
         (JObj [(lit "detail",
                 JArr [JObj [(lit "msg", JStr (lit "Field required"))];
                       JObj [(lit "msg", JStr (lit "Input too long"))]])])
         1500] = Some w' /\
    error (store w') = Some (lit "[object Object],[object Object]") /\
    messages (store w') =
      messages (store (asked (lit "a") 999)) ++
        [{| id := lit "1501"; role := bot;
            content :=
              JVal (JStr
                      (lit "Error: [object Object],[object Object]")) |}].
Proof.
  apply (structured_detail_is_not_shown (asked (lit "a") 999) 0
           [(lit "detail",
             JArr [JObj [(lit "msg", JStr (lit "Field required"))];
                   JObj [(lit "msg", JStr (lit "Input too long"))]])]
           [[(lit "msg", JStr (lit "Field required"))];
            [(lit "msg", JStr (lit "Input too long"))]] 1500);
    [reflexivity|reflexivity|].
  apply Forall_cons. split; [reflexivity|].
  apply Forall_cons. split; [reflexivity|apply Forall_nil_2].
Defined.

Lemma reply_without_response_is_blank_witness :
  exists w',
    run (asked (lit "a") 999)
      [FetchResolved 0 true;
       JsonResolved 0 (JObj [(lit "answer", JStr (lit "x"))]) 1500]
      = Some w' /\
    messages (store w') =
      messages (store (asked (lit "a") 999)) ++
        [{| id := lit "1501"; role := bot; content := JUndefined |}] /\
    error (store w') = None /\
    isLoading (store w') = false.
Proof.
  apply (reply_without_response_is_blank (asked (lit "a") 999) 0
           (JObj [(lit "answer", JStr (lit "x"))]) 1500);
    [reflexivity|discriminate|].
  intros members [= <-]. reflexivity.
Defined.

Lemma body_failure_is_reported_witness :
  exists w',
    run (asked (lit "a") 999)
      [FetchResolved 0 true; JsonResolved 0 JNull 1500] = Some w' /\
    messages (store w') =
      messages (store (asked (lit "a") 999)) ++
        [{| id := lit "1501"; role := bot;
            content :=
              JVal (JStr
                      (lit "Error: Cannot read properties of null (reading 'response')")) |}] /\
    error (store w') =
      Some (lit "Cannot read properties of null (reading 'response')") /\
    isLoading (store w') = false.
Proof.
  exact (proj2 (body_failure_is_reported (asked (lit "a") 999) 0 true 1500
                  eq_refl)).
Defined.

Lemma log_alternates_witness :
  exists n,
    map (fun b => justify b)
      (log (ChatInterface (store (asked (lit "a") 999)))) =
      concat (replicate n [lit "justify-end"; lit "justify-start"]).
Proof.
  apply (log_alternates (asked (lit "a") 999)). apply asked_reachable.
Defined.

Lemma disabled_while_thinking_witness :
  submit_disabled (ChatInterface (store (asked (lit "a") 999)))
    = input_disabled (ChatInterface (store (asked (lit "a") 999))) /\
  (input_disabled (ChatInterface (store (asked (lit "a") 999))) = true <->
   last (log (ChatInterface (store (asked (lit "a") 999))))
     = Some thinking_row) /\
  (input_disabled (ChatInterface (store (asked (lit "a") 999))) = true ->
   value (ChatInterface (store (asked (lit "a") 999))) = []).
Proof.
  apply (disabled_while_thinking (asked (lit "a") 999)).
  apply asked_reachable.
Defined.

Lemma scroll_effect_runs_on_append_witness :
  scroll_deps
    (store (finish 0 (Throw (lit "Failed to fetch")) 1500
              (asked (lit "a") 999)))
    <> scroll_deps (store (asked (lit "a") 999)) <->
  exists m,
    messages
      (store (finish 0 (Throw (lit "Failed to fetch")) 1500
                (asked (lit "a") 999))) =
      messages (store (asked (lit "a") 999)) ++ [m].
Proof.
  apply (scroll_effect_runs_on_append (asked (lit "a") 999)
           (FetchRejected 0 (lit "Failed to fetch") 1500)).
  reflexivity.
Defined.
